(** * The invoices router of the invoices service

    A shallow embedding of [invoices-router.ts]: the six route handlers of
    [InvoicesRouter.router], the validation middleware placed in front of
    them, and the calls they make on the injected [InvoicesService].

    A handler is a computation over a [World]: the state of the injected
    service together with the log of the calls made on it.  An exception is
    the left summand of the result; [try ... catch (err) { return next(err) }]
    turns it into the outcome [Next err]. *)

From Stdlib.Strings Require Import Ascii Byte.
From stdpp Require Import base option list strings gmap fin_maps.

Open Scope string_scope.

Set Warnings "-register-all".

(** ** Values *)

(** A Node [Buffer]: a sequence of bytes. *)
Abbreviation Buffer := (list byte).

(** Parsed request data (query string values, JSON bodies). *)
Inductive JsValue : Type :=
| JsNull
| JsBool (b : bool)
| JsNumber (n : Z)
| JsString (s : string)
| JsArray (items : list JsValue)
| JsObject (fields : list (string * JsValue)).

(** [UploadedFile] of express-fileupload, with the fields the router reads. *)
Record UploadedFile : Type := {
  name : string;
  data : Buffer;
  mimetype : string;
}.

(** A value of [req.files]: the file uploaded under a field name, or, when
    the field name occurs several times in the upload, the array of those
    files (the router casts the value [as UploadedFile]). *)
Inductive FileField : Type :=
| OneFile (file : UploadedFile)
| ManyFiles (first second : UploadedFile) (others : list UploadedFile).

Definition fieldFiles (v : FileField) : list UploadedFile :=
  match v with
  | OneFile f => [f]
  | ManyFiles f1 f2 fs => f1 :: f2 :: fs
  end.

(** [req.files]: absent, or an object from field names to uploads. *)
Abbreviation FileArray := (gmap string FileField).

(** Every file carried by the upload, whatever its field name. *)
Definition uploadedFiles (files : option FileArray) : list UploadedFile :=
  match files with
  | None => []
  | Some fs => map_to_list fs ≫= λ kv, fieldFiles kv.2
  end.

(** Property reads on a value of [req.files]; an array has neither
    property, and the read yields [undefined] ([None]). *)
Definition get_data (v : FileField) : option Buffer :=
  match v with
  | OneFile f => Some (data f)
  | ManyFiles _ _ _ => None
  end.

Definition get_mimetype (v : FileField) : option string :=
  match v with
  | OneFile f => Some (mimetype f)
  | ManyFiles _ _ _ => None
  end.

(** ** Errors *)

Inductive Segments : Type := PARAMS | QUERY | BODY.

(** The exceptions that travel through the router: the three classes it
    constructs itself, the validation middleware's, and whatever else a
    collaborator raises. *)
Inductive JsError : Type :=
| RangeError (message : string)
| Error (message : string)
| NotFoundError (message : string)
| CelebrateError (segment : Segments)
| TypeError (message : string)
| OtherError (class message : string).

Inductive ErrorKind : Type := InvalidRequest | NotFound | InvalidState | Unhandled.

(** Modelled from the spec: the top-level error handler that [next(err)]
    reaches is not part of the router.  The error kinds are the spec's
    (section 7); each is attached to the exception class the router raises
    where the spec names that kind: [RangeError] for the file count and the
    orderBy direction, the validation middleware's error for enum values,
    [NotFoundError] for an absent resource, a plain [Error] for the
    unmappable MIME type, and everything else unhandled. *)
Definition errorKind (err : JsError) : ErrorKind :=
  match err with
  | RangeError _ => InvalidRequest
  | CelebrateError _ => InvalidRequest
  | NotFoundError _ => NotFound
  | Error _ => InvalidState
  | TypeError _ => Unhandled
  | OtherError _ _ => Unhandled
  end.

Module StatusCodes.
Definition OK : nat := 200.
Definition CREATED : nat := 201.
End StatusCodes.

(** ** Arguments and results of the service *)

(** The [document] of [createInvoice]'s argument.  The router fills it from
    property reads, so each field may be [undefined]. *)
Record Document : Type := {
  content : option Buffer;
  mimeType : option string;
}.

Record CreateInvoiceOptions : Type := { document : Document }.

Inductive Field : Type := dueDate.
Inductive Direction : Type := asc | desc.

Record OrderBy : Type := { field : Field; direction : Direction }.

Record ListInvoicesOptions : Type := {
  ids : option (list string);
  statuses : option (list string);
  vendorIds : option (list string);
  orderBy : list OrderBy;
}.

Record UpdateInvoiceOptions : Type := { status : option JsValue }.

(** What [downloadInvoiceDocumentFile] resolves to. *)
Record InvoiceDocumentFile : Type := {
  file_content : Buffer;
  file_mimeType : string;
}.

Inductive Call : Type :=
| CreateInvoiceCall (options : CreateInvoiceOptions)
| ListInvoicesCall (options : ListInvoicesOptions)
| ListCurrenciesCall
| GetInvoiceByIdCall (invoiceId : string)
| DownloadInvoiceDocumentFileCall (invoiceId : string)
| UpdateInvoiceCall (invoiceId : string) (options : UpdateInvoiceOptions).

(** One entry of the call log: the call, and the exception it raised. *)
Record Event : Type := { call : Call; raised : option JsError }.

(** The object passed to [res.set]. *)
Record Headers : Type := {
  Content_Type : string;
  Content_Length : nat;
  Content_Disposition : string;
}.

(** The double quote character, for the quoted file name. *)
Definition dquote : string := String (Ascii.ascii_of_nat 34) EmptyString.

(** [String.prototype.split] with a one-character separator. *)
Fixpoint split (separator : Ascii.ascii) (s : string) : list string :=
  match s with
  | EmptyString => [EmptyString]
  | String c rest =>
      if decide (c = separator) then EmptyString :: split separator rest
      else match split separator rest with
           | [] => [String c EmptyString]
           | piece :: pieces => String c piece :: pieces
           end
  end.

Section Router.

(** The service's own state and its invoice representation. *)
Variables (S Invoice : Type).

(** [Joi.string().uuid()]'s pattern test, [Object.values(InvoiceStatus)]
    and [mimeTypes.extension] ([false] is [None]) come from outside the
    router. *)
Variable uuid : string → bool.
Variable InvoiceStatus : list string.
Variable extension : string → option string.

(** A method of a collaborator: it may change the collaborator's state,
    and returns or raises. *)
Definition Method (A : Type) : Type := S → S * (JsError + A).

Record InvoicesService : Type := {
  createInvoice : CreateInvoiceOptions → Method Invoice;
  listInvoices : ListInvoicesOptions → Method (list Invoice);
  listCurrencies : Method (list string);
  getInvoiceById : string → Method (option Invoice);
  downloadInvoiceDocumentFile : string → Method (option InvoiceDocumentFile);
  updateInvoice : string → UpdateInvoiceOptions → Method Invoice;
}.

Record World : Type := { service_state : S; calls : list Event }.

Inductive Body : Type :=
| InvoiceBody (invoice : Invoice)
| InvoicesBody (invoices : list Invoice)
| CurrenciesBody (currencies : list string).

(** How a route ends: [res.status(..).json(..)], [res.set(..)] followed by
    [res.send(..)], or [next(err)]. *)
Inductive Outcome : Type :=
| ResJson (statusCode : nat) (body : Body)
| ResSend (headers : Headers) (body : Buffer)
| Next (err : JsError).

(** *** The handler monad *)

Definition Eff (A : Type) : Type := World → World * (JsError + A).

#[global] Instance Eff_ret : MRet Eff := λ A a w, (w, inr a).

#[global] Instance Eff_bind : MBind Eff := λ A B k m w,
  match m w with
  | (w', inl err) => (w', inl err)
  | (w', inr a) => k a w'
  end.

Definition throw {A : Type} (err : JsError) : Eff A := λ w, (w, inl err).

Definition raisedBy {A : Type} (r : JsError + A) : option JsError :=
  match r with
  | inl err => Some err
  | inr _ => None
  end.

(** Calling (and awaiting) a method of the service. *)
Definition invoke {A : Type} (c : Call) (method : Method A) : Eff A := λ w,
  let '(s, r) := method (service_state w) in
  ({| service_state := s;
      calls := calls w ++ [ {| call := c; raised := raisedBy r |} ] |}, r).

Definition Route : Type := World → World * Outcome.

(** [try { body } catch (err) { return next(err); }] *)
Definition try_next (body : Eff Outcome) : Route := λ w,
  match body w with
  | (w', inl err) => (w', Next err)
  | (w', inr out) => (w', out)
  end.

(** The validation middleware: the handler runs only on a valid request. *)
Definition celebrate {A : Type} (segment : Segments) (validated : option A)
    (handler : A → Route) : Route := λ w,
  match validated with
  | None => (w, Next (CelebrateError segment))
  | Some a => handler a w
  end.

Fixpoint array_map {A B : Type} (f : A → Eff B) (xs : list A) : Eff (list B) :=
  match xs with
  | [] => mret []
  | x :: rest => y ← f x; ys ← array_map f rest; mret (y :: ys)
  end.

Variable service : InvoicesService.

(** *** POST / *)

Definition postInvoice (files : option FileArray) : Route :=
  try_next (
    match files with
    | None => throw (RangeError "No files were uploaded")
    | Some fs =>
        let fileKeys := (map_to_list fs).*1 in
        if decide (length fileKeys = 0) then
          throw (RangeError "No files were uploaded")
        else if decide (length fileKeys ≠ 1) then
          throw (RangeError "Must upload a single file")
        else
          match fileKeys !! 0 ≫= λ key, fs !! key with
          | None => throw (TypeError "Cannot read properties of undefined")
          | Some invoiceFile =>
              let options :=
                {| document := {| content := get_data invoiceFile;
                                  mimeType := get_mimetype invoiceFile |} |} in
              invoice ← invoke (CreateInvoiceCall options)
                               (createInvoice service options);
              mret (ResJson StatusCodes.CREATED (InvoiceBody invoice))
          end
    end).

(** *** Schemas of the validation middleware *)

(** [Joi.string()]: a string other than the empty one. *)
Definition joi_string (s : string) : bool := bool_decide (s ≠ "").

(** [Joi.string().uuid()] *)
Definition joi_uuid (s : string) : bool := joi_string s && uuid s.

(** [Joi.string().valid(...Object.values(InvoiceStatus))]: one of the
    listed values, and nothing else. *)
Definition joi_status (s : string) : bool := bool_decide (s ∈ InvoiceStatus).

(** [Joi.array().items(item)], for an item schema on strings. *)
Definition joi_array (item : string → bool) (v : JsValue) : option (list string) :=
  match v with
  | JsArray items =>
      mapM (λ x, match x with
                 | JsString s => if item s then Some s else None
                 | _ => None
                 end) items
  | _ => None
  end.

(** A key that is not [required()]. *)
Definition joi_optional {A : Type} (schema : JsValue → option A)
    (v : option JsValue) : option (option A) :=
  match v with
  | None => Some None
  | Some x => Some <$> schema x
  end.

(** [req.query] once validated. *)
Record ListQuery : Type := {
  query_ids : option (list string);
  query_statuses : option (list string);
  query_vendorIds : option (list string);
  query_orderBy : option (list string);
}.

Definition listQueryKeys : gset string :=
  {[ "ids"; "statuses"; "vendorIds"; "orderBy" ]}.

Definition listQuerySchema (query : gmap string JsValue) : option ListQuery :=
  if bool_decide (dom query ⊆ listQueryKeys) then
    ids ← joi_optional (joi_array joi_uuid) (query !! "ids");
    statuses ← joi_optional (joi_array joi_status) (query !! "statuses");
    vendorIds ← joi_optional (joi_array joi_uuid) (query !! "vendorIds");
    orderBy ← joi_optional (joi_array joi_string) (query !! "orderBy");
    Some {| query_ids := ids; query_statuses := statuses;
            query_vendorIds := vendorIds; query_orderBy := orderBy |}
  else None.

(** [Joi.string().uuid().required()] on [req.params.invoiceId]. *)
Definition invoiceIdSchema (invoiceId : string) : option string :=
  if joi_uuid invoiceId then Some invoiceId else None.

Definition statusBodySchema (body : gmap string JsValue)
    : option (gmap string JsValue) :=
  if bool_decide (dom body ⊆ ({[ "status" ]} : gset string)) then
    match body !! "status" with
    | None => Some body
    | Some (JsString s) => if joi_status s then Some body else None
    | Some _ => None
    end
  else None.

(** *** GET / *)

Definition orderByOf (orderByClause : string) : Eff OrderBy :=
  let parts := split " "%char orderByClause in
  let field := parts !! 0 in
  let direction := parts !! 1 in
  if decide (field ≠ Some "dueDate") then throw (Error "")
  else if decide (direction ≠ Some "asc" ∧ direction ≠ Some "desc") then
    throw (RangeError ("Invalid direction in orderBy clause " +:+ orderByClause))
  else
    mret {| field := dueDate;
            direction := if decide (direction = Some "asc") then asc else desc |}.

Definition listInvoicesOptionsOf (query : ListQuery) (orderBy : list OrderBy)
    : ListInvoicesOptions :=
  {| ids := query_ids query; statuses := query_statuses query;
     vendorIds := query_vendorIds query; orderBy := orderBy |}.

Definition getInvoices (query : gmap string JsValue) : Route :=
  celebrate QUERY (listQuerySchema query) (λ query,
    try_next (
      orderBy ← match query_orderBy query with
                | Some orderByQueryParam => array_map orderByOf orderByQueryParam
                | None => mret []
                end;
      let options := listInvoicesOptionsOf query orderBy in
      vendors ← invoke (ListInvoicesCall options) (listInvoices service options);
      mret (ResJson StatusCodes.OK (InvoicesBody vendors)))).

(** *** GET /currencies *)

Definition getCurrencies : Route :=
  try_next (
    currencies ← invoke ListCurrenciesCall (listCurrencies service);
    mret (ResJson StatusCodes.OK (CurrenciesBody currencies))).

(** *** GET /:invoiceId *)

Definition getInvoice (invoiceId : string) : Route :=
  celebrate PARAMS (invoiceIdSchema invoiceId) (λ invoiceId,
    try_next (
      invoice ← invoke (GetInvoiceByIdCall invoiceId)
                       (getInvoiceById service invoiceId);
      match invoice with
      | None => throw (NotFoundError ("Invoice " +:+ invoiceId +:+ " not found"))
      | Some invoice => mret (ResJson StatusCodes.OK (InvoiceBody invoice))
      end)).

(** *** GET /:invoiceId/download *)

Definition attachment (invoiceId fileExtension : string) : string :=
  "attachment; filename=" +:+ dquote +:+ invoiceId +:+ "." +:+ fileExtension
    +:+ dquote.

Definition downloadInvoice (invoiceId : string) : Route :=
  celebrate PARAMS (invoiceIdSchema invoiceId) (λ invoiceId,
    try_next (
      invoiceDocumentFile ←
        invoke (DownloadInvoiceDocumentFileCall invoiceId)
               (downloadInvoiceDocumentFile service invoiceId);
      match invoiceDocumentFile with
      | None => throw (NotFoundError ("Invoice " +:+ invoiceId +:+ " not found"))
      | Some invoiceDocumentFile =>
          let invalid :=
            Error ("Invalid mimeType " +:+ file_mimeType invoiceDocumentFile
                     +:+ " for invoice " +:+ invoiceId) in
          match extension (file_mimeType invoiceDocumentFile) with
          | None => throw invalid
          | Some fileExtension =>
              (* the empty string is as falsy as [false] *)
              if decide (fileExtension = "") then throw invalid
              else
                mret (ResSend
                  {| Content_Type := file_mimeType invoiceDocumentFile;
                     Content_Length := length (file_content invoiceDocumentFile);
                     Content_Disposition := attachment invoiceId fileExtension |}
                  (file_content invoiceDocumentFile))
          end
      end)).

(** *** PATCH /:invoiceId *)

Definition patchInvoice (invoiceId : string) (body : gmap string JsValue) : Route :=
  celebrate BODY (statusBodySchema body) (λ body,
    try_next (
      let status := body !! "status" in
      let options := {| status := status |} in
      invoice ← invoke (UpdateInvoiceCall invoiceId options)
                       (updateInvoice service invoiceId options);
      mret (ResJson StatusCodes.OK (InvoiceBody invoice)))).

(** *** The router *)

Inductive Request : Type :=
| POST_root (files : option FileArray)
| GET_root (query : gmap string JsValue)
| GET_currencies
| GET_invoiceId (invoiceId : string)
| GET_invoiceId_download (invoiceId : string)
| PATCH_invoiceId (invoiceId : string) (body : gmap string JsValue).

Definition router (req : Request) : Route :=
  match req with
  | POST_root files => postInvoice files
  | GET_root query => getInvoices query
  | GET_currencies => getCurrencies
  | GET_invoiceId invoiceId => getInvoice invoiceId
  | GET_invoiceId_download invoiceId => downloadInvoice invoiceId
  | PATCH_invoiceId invoiceId body => patchInvoice invoiceId body
  end.

End Router.

Arguments InvoiceBody {Invoice} invoice.
Arguments InvoicesBody {Invoice} invoices.
Arguments CurrenciesBody {Invoice} currencies.
Arguments ResJson {Invoice} statusCode body.
Arguments ResSend {Invoice} headers body.
Arguments Next {Invoice} err.
Arguments service_state {S} w.
Arguments calls {S} w.
Arguments createInvoice {S Invoice} service options s : rename.
Arguments listInvoices {S Invoice} service options s : rename.
Arguments listCurrencies {S Invoice} service s : rename.
Arguments getInvoiceById {S Invoice} service invoiceId s : rename.
Arguments downloadInvoiceDocumentFile {S Invoice} service invoiceId s : rename.
Arguments updateInvoice {S Invoice} service invoiceId options s : rename.
Arguments postInvoice {S Invoice} service files w.
Arguments getInvoices {S Invoice} uuid InvoiceStatus service query w.
Arguments getCurrencies {S Invoice} service w.
Arguments getInvoice {S Invoice} uuid service invoiceId w.
Arguments downloadInvoice {S Invoice} uuid extension service invoiceId w.
Arguments patchInvoice {S Invoice} InvoiceStatus service invoiceId body w.
Arguments router {S Invoice} uuid InvoiceStatus extension service req w.

(** What a route does once it is down to its one call on the service: the
    call is logged, the service's state is threaded, and the answer is
    either passed to [respond] or handed to [next]. *)
Definition delegate {S Invoice A : Type} (c : Call) (method : S → S * (JsError + A))
    (respond : A → Outcome Invoice) (w : World S) : World S * Outcome Invoice :=
  let '(s, r) := method (service_state w) in
  ({| service_state := s;
      calls := calls w ++ [ {| call := c; raised := raisedBy r |} ] |},
   match r with
   | inl err => Next err
   | inr a => respond a
   end).

(** The calls a route added to the log. *)
Definition newCalls {S Invoice : Type} (route : Route S Invoice) (w : World S)
    : list Event :=
  drop (length (calls w)) (calls (route w).1).

(** What the download route answers to what the service returned. *)
Definition downloadAnswer {Invoice : Type} (extension : string → option string)
    (invoiceId : string) (found : option InvoiceDocumentFile) : Outcome Invoice :=
  match found with
  | None => Next (NotFoundError ("Invoice " +:+ invoiceId +:+ " not found"))
  | Some file =>
      let invalid :=
        Next (Error ("Invalid mimeType " +:+ file_mimeType file
                       +:+ " for invoice " +:+ invoiceId)) in
      match extension (file_mimeType file) with
      | None => invalid
      | Some fileExtension =>
          if decide (fileExtension = "") then invalid
          else ResSend
                 {| Content_Type := file_mimeType file;
                    Content_Length := length (file_content file);
                    Content_Disposition := attachment invoiceId fileExtension |}
                 (file_content file)
      end
  end.

(** Every route either answers without touching the service, or is one
    delegation. *)
Inductive Shape {S Invoice : Type} (route : Route S Invoice) (w : World S) : Prop :=
| Untouched (out : Outcome Invoice) (Hrun : route w = (w, out))
| Delegated {A : Type} (c : Call) (method : S → S * (JsError + A))
    (respond : A → Outcome Invoice)
    (Hrun : route w = delegate c method respond w).

(** The method of the service each route is written to call, with the
    identifier the route takes from the path. *)
Definition answers (req : Request) (c : Call) : Prop :=
  match req, c with
  | POST_root _, CreateInvoiceCall _ => True
  | GET_root _, ListInvoicesCall _ => True
  | GET_currencies, ListCurrenciesCall => True
  | GET_invoiceId invoiceId, GetInvoiceByIdCall invoiceId' => invoiceId' = invoiceId
  | GET_invoiceId_download invoiceId, DownloadInvoiceDocumentFileCall invoiceId' =>
      invoiceId' = invoiceId
  | PATCH_invoiceId invoiceId _, UpdateInvoiceCall invoiceId' _ => invoiceId' = invoiceId
  | _, _ => False
  end.

(** The errors the router raises by itself: those of its own checks and the
    validation middleware's. *)
Definition routerError (err : JsError) : Prop :=
  match err with
  | RangeError _ => True
  | CelebrateError _ => True
  | Error message => message = ""
  | _ => False
  end.

(** The number of field names of [req.files]. *)
Definition fieldCount (files : option FileArray) : nat :=
  match files with
  | None => 0
  | Some fs => size fs
  end.

(** ** A sample deployment

    An in-memory service and concrete choices for what the router takes from
    outside, used in the examples. *)
Module Sample.

Record Invoice : Type := {
  id : string;
  invoiceStatus : string;
  invoiceDocument : InvoiceDocumentFile;
}.

Definition isHexDigit (c : ascii) : bool :=
  let n := nat_of_ascii c in
  (Nat.leb 48 n && Nat.leb n 57) || (Nat.leb 97 n && Nat.leb n 102).

Definition hexOfLength (n : nat) (s : string) : bool :=
  let cs := String.list_ascii_of_string s in
  bool_decide (length cs = n) && forallb isHexDigit cs.

(** The canonical 8-4-4-4-12 form. *)
Definition uuid (s : string) : bool :=
  match split "-"%char s with
  | [a; b; c; d; e] =>
      hexOfLength 8 a && hexOfLength 4 b && hexOfLength 4 c
      && hexOfLength 4 d && hexOfLength 12 e
  | _ => false
  end.

Definition InvoiceStatus : list string := ["created"; "approved"; "paid"].

Definition extension (mimeType : string) : option string :=
  if decide (mimeType = "application/pdf") then Some "pdf"
  else if decide (mimeType = "image/png") then Some "png"
  else None.

Definition find (invoiceId : string) (invoices : list Invoice) : option Invoice :=
  List.find (λ invoice, bool_decide (id invoice = invoiceId)) invoices.

Definition freshId (invoices : list Invoice) : string :=
  if decide (length invoices = 0) then "7f3c2a10-5b8e-4c6d-9a1f-0e2d4b6c8a01"
  else "7f3c2a10-5b8e-4c6d-9a1f-0e2d4b6c8a02".

Definition service : InvoicesService (list Invoice) Invoice := {|
  createInvoice options invoices :=
    match content (document options), mimeType (document options) with
    | Some bytes, Some type =>
        let invoice :=
          {| id := freshId invoices; invoiceStatus := "created";
             invoiceDocument := {| file_content := bytes; file_mimeType := type |} |} in
        ((invoices ++ [invoice])%list, inr invoice)
    | _, _ => (invoices, inl (TypeError "document is incomplete"))
    end;
  listInvoices options invoices := (invoices, inr invoices);
  listCurrencies invoices := (invoices, inr ["CAD"; "USD"]);
  getInvoiceById invoiceId invoices := (invoices, inr (find invoiceId invoices));
  downloadInvoiceDocumentFile invoiceId invoices :=
    (invoices, inr (invoiceDocument <$> find invoiceId invoices));
  updateInvoice invoiceId options invoices :=
    match find invoiceId invoices with
    | None => (invoices, inl (OtherError "NotFoundError" "no such invoice"))
    | Some invoice => (invoices, inr invoice)
    end;
|}.

Definition pdf : UploadedFile :=
  {| name := "invoice.pdf"; data := [x25; x50; x44; x46];
     mimetype := "application/pdf" |}.

Definition scan : UploadedFile :=
  {| name := "scan.bin"; data := [x00; x01]; mimetype := "application/x-scan" |}.

Definition stored (f : UploadedFile) (invoiceId : string) : Invoice :=
  {| id := invoiceId; invoiceStatus := "created";
     invoiceDocument := {| file_content := data f; file_mimeType := mimetype f |} |}.

Definition idA : string := "7f3c2a10-5b8e-4c6d-9a1f-0e2d4b6c8a01".
Definition idB : string := "7f3c2a10-5b8e-4c6d-9a1f-0e2d4b6c8a02".
Definition idC : string := "7f3c2a10-5b8e-4c6d-9a1f-0e2d4b6c8a03".

Definition empty : World (list Invoice) := {| service_state := []; calls := [] |}.

(** One invoice with a PDF, one whose document type has no extension. *)
Definition populated : World (list Invoice) :=
  {| service_state := [stored pdf idA; stored scan idB]; calls := [] |}.

(** An upload of the PDF alone, and a body that marks an invoice paid. *)
Definition upload : option FileArray := Some {[ "document" := OneFile pdf ]}.

Definition paid : gmap string JsValue := {[ "status" := JsString "paid" ]}.

End Sample.

(** More requests for the sample deployment. *)
Module Requests.

(** Two uploads under two field names. *)
Definition twoFields : option FileArray :=
  Some {[ "first" := OneFile Sample.pdf; "second" := OneFile Sample.scan ]}.

(** Filters and two orderBy clauses, all well-formed. *)
Definition filtered : gmap string JsValue :=
  {[ "statuses" := JsArray [JsString "paid"];
     "orderBy" := JsArray [JsString "dueDate desc"; JsString "dueDate asc"] ]}.

Definition filteredQuery : ListQuery :=
  {| query_ids := None; query_statuses := Some ["paid"];
     query_vendorIds := None;
     query_orderBy := Some ["dueDate desc"; "dueDate asc"] |}.

(** A filter on an id that is not a UUID. *)
Definition byBadId : gmap string JsValue := {[ "ids" := JsArray [JsString "42"] ]}.

(** A status outside the enumeration. *)
Definition voided : gmap string JsValue := {[ "status" := JsString "void" ]}.

End Requests.

(** ** Running the routes *)

Example split_two : split " "%char "dueDate asc" = ["dueDate"; "asc"].
Proof. reflexivity. Qed.

Example split_one : split " "%char "dueDate" = ["dueDate"].
Proof. reflexivity. Qed.

Example split_gap : split " "%char "dueDate  asc" = ["dueDate"; ""; "asc"].
Proof. reflexivity. Qed.

Example sample_uuid : Sample.uuid Sample.idA = true ∧ Sample.uuid "42" = false.
Proof. split; reflexivity. Qed.

Example sample_list_ascending :
  getInvoices Sample.uuid Sample.InvoiceStatus Sample.service
    {[ "orderBy" := JsArray [JsString "dueDate asc"] ]} Sample.populated
  = ({| service_state := service_state Sample.populated;
        calls := [ {| call := ListInvoicesCall
                        {| ids := None; statuses := None; vendorIds := None;
                           orderBy := [ {| field := dueDate; direction := asc |} ] |};
                      raised := None |} ] |},
     ResJson 200 (InvoicesBody (service_state Sample.populated))).
Proof. vm_compute. reflexivity. Qed.

Section Runs.

Context {S Invoice : Type}.
Variable uuid : string → bool.
Variable InvoiceStatus : list string.
Variable extension : string → option string.
Variable service : InvoicesService S Invoice.

Implicit Types (w : World S) (invoiceId : string).

Lemma try_next_invoke {A : Type} (c : Call) (method : S → S * (JsError + A))
    (respond : A → Outcome Invoice) w :
  try_next S Invoice (a ← invoke S c method; mret (respond a)) w
  = delegate c method respond w.
Proof.
  unfold try_next, delegate, invoke, mbind, Eff_bind, mret, Eff_ret.
  destruct (method (service_state w)) as [s [err | a]]; reflexivity.
Qed.

Lemma newCalls_delegate {A : Type} (c : Call) (method : S → S * (JsError + A))
    (respond : A → Outcome Invoice) (route : Route S Invoice) w :
  route w = delegate c method respond w →
  newCalls route w
  = [ {| call := c; raised := raisedBy (method (service_state w)).2 |} ].
Proof.
  intros Hrun. unfold newCalls. rewrite Hrun. unfold delegate.
  destruct (method (service_state w)) as [s r]; simpl.
  by rewrite drop_app_length.
Qed.

Lemma newCalls_unchanged (route : Route S Invoice) w out :
  route w = (w, out) → newCalls route w = [].
Proof.
  intros Hrun. unfold newCalls. rewrite Hrun. simpl. by rewrite drop_all.
Qed.

(** *** POST / *)

(** An upload that carries one file in all has one field, holding that
    file. *)
Lemma one_file_one_field (fs : FileArray) (f : UploadedFile) :
  uploadedFiles (Some fs) = [f] → ∃ key, map_to_list fs = [(key, OneFile f)].
Proof.
  unfold uploadedFiles.
  destruct (map_to_list fs) as [| [key v] rest]; [discriminate |].
  intros Hfiles. exists key.
  destruct v as [g | g1 g2 gs]; simpl in Hfiles.
  - destruct rest as [| [key' v'] rest'].
    + by inversion Hfiles.
    + destruct v'; discriminate.
  - discriminate.
Qed.

Lemma postInvoice_one_field (fs : FileArray) key (v : FileField) w :
  map_to_list fs = [(key, v)] →
  postInvoice service (Some fs) w
  = let options := {| document := {| content := get_data v;
                                      mimeType := get_mimetype v |} |} in
    delegate (CreateInvoiceCall options) (createInvoice service options)
      (λ invoice, ResJson StatusCodes.CREATED (InvoiceBody invoice)) w.
Proof.
  intros Hkeys.
  assert (fs !! key = Some v) as Hlookup.
  { apply elem_of_map_to_list. rewrite Hkeys. left. }
  unfold postInvoice. rewrite Hkeys. simpl. rewrite Hlookup. simpl.
  apply try_next_invoke.
Qed.

(** No field, or more than one: the upload is refused before any call. *)
Lemma postInvoice_fields_not_one (files : option FileArray) w :
  (∀ fs, files = Some fs → size fs ≠ 1) →
  ∃ message, postInvoice service files w = (w, Next (RangeError message)).
Proof.
  intros Hsize. destruct files as [fs |]; [| by eexists].
  specialize (Hsize fs eq_refl). unfold postInvoice, try_next.
  rewrite length_fmap, length_map_to_list.
  destruct (decide (size fs = 0)); [by eexists |].
  destruct (decide (size fs ≠ 1)); [by eexists | done].
Qed.

(** *** Routes that validate, call once, and answer *)

Lemma try_next_invoke_then {A : Type} (c : Call) (method : S → S * (JsError + A))
    (k : A → Eff S (Outcome Invoice)) (respond : A → Outcome Invoice) w :
  (∀ a w', try_next S Invoice (k a) w' = (w', respond a)) →
  try_next S Invoice (a ← invoke S c method; k a) w = delegate c method respond w.
Proof.
  intros Hk.
  unfold try_next, delegate, invoke, mbind, Eff_bind in *.
  destruct (method (service_state w)) as [s [err | a]]; [reflexivity |].
  apply Hk.
Qed.

Lemma getInvoice_run invoiceId w :
  joi_uuid uuid invoiceId = true →
  getInvoice uuid service invoiceId w
  = delegate (GetInvoiceByIdCall invoiceId) (getInvoiceById service invoiceId)
      (λ invoice,
         match invoice with
         | None => Next (NotFoundError ("Invoice " +:+ invoiceId +:+ " not found"))
         | Some invoice => ResJson StatusCodes.OK (InvoiceBody invoice)
         end) w.
Proof.
  intros Hid. unfold getInvoice, celebrate, invoiceIdSchema. rewrite Hid.
  apply try_next_invoke_then. by intros [invoice |] w'.
Qed.

Lemma getInvoice_refused invoiceId w :
  joi_uuid uuid invoiceId = false →
  getInvoice uuid service invoiceId w = (w, Next (CelebrateError PARAMS)).
Proof.
  intros Hid. unfold getInvoice, celebrate, invoiceIdSchema. by rewrite Hid.
Qed.

Lemma downloadInvoice_run invoiceId w :
  joi_uuid uuid invoiceId = true →
  downloadInvoice uuid extension service invoiceId w
  = delegate (DownloadInvoiceDocumentFileCall invoiceId)
      (downloadInvoiceDocumentFile service invoiceId)
      (downloadAnswer extension invoiceId) w.
Proof.
  intros Hid. unfold downloadInvoice, celebrate, invoiceIdSchema. rewrite Hid.
  apply try_next_invoke_then. intros [file |] w'; [| reflexivity].
  unfold downloadAnswer.
  destruct (extension (file_mimeType file)) as [fileExtension |]; [| reflexivity].
  by destruct (decide (fileExtension = "")).
Qed.

Lemma downloadInvoice_refused invoiceId w :
  joi_uuid uuid invoiceId = false →
  downloadInvoice uuid extension service invoiceId w
  = (w, Next (CelebrateError PARAMS)).
Proof.
  intros Hid. unfold downloadInvoice, celebrate, invoiceIdSchema. by rewrite Hid.
Qed.

Lemma getCurrencies_run w :
  getCurrencies service w
  = delegate ListCurrenciesCall (listCurrencies service)
      (λ currencies, ResJson StatusCodes.OK (CurrenciesBody currencies)) w.
Proof. apply try_next_invoke. Qed.

(** *** PATCH /:invoiceId *)

Lemma statusBodySchema_accepts (body : gmap string JsValue) :
  dom body ⊆ {[ "status" ]} →
  (body !! "status" = None
   ∨ ∃ s, body !! "status" = Some (JsString s) ∧ s ∈ InvoiceStatus) →
  statusBodySchema InvoiceStatus body = Some body.
Proof.
  intros Hkeys Hstatus. unfold statusBodySchema.
  rewrite bool_decide_eq_true_2 by done.
  destruct Hstatus as [-> | (s & -> & Hs)]; [done |].
  unfold joi_status. by rewrite bool_decide_eq_true_2.
Qed.

Lemma statusBodySchema_same (body body' : gmap string JsValue) :
  statusBodySchema InvoiceStatus body = Some body' → body' = body.
Proof.
  unfold statusBodySchema. intros Hvalid.
  case_bool_decide; [| done].
  destruct (body !! "status") as [[] |]; try done; [| congruence].
  destruct (joi_status InvoiceStatus s); [congruence | done].
Qed.

Lemma patchInvoice_run invoiceId (body : gmap string JsValue) w :
  is_Some (statusBodySchema InvoiceStatus body) →
  patchInvoice InvoiceStatus service invoiceId body w
  = let options := {| status := body !! "status" |} in
    delegate (UpdateInvoiceCall invoiceId options)
      (updateInvoice service invoiceId options)
      (λ invoice, ResJson StatusCodes.OK (InvoiceBody invoice)) w.
Proof.
  intros [body' Hvalid]. unfold patchInvoice, celebrate. rewrite Hvalid.
  apply statusBodySchema_same in Hvalid as ->. apply try_next_invoke.
Qed.

(** *** GET / *)

(** Reading an orderBy clause touches nothing: it yields an [OrderBy] or
    raises, the same in every world. *)
Lemma orderByOf_pure (orderByClause : string) :
  ∃ r, ∀ w, orderByOf S orderByClause w = (w, r).
Proof.
  unfold orderByOf.
  destruct (decide (split " "%char orderByClause !! 0 ≠ Some "dueDate"));
    [by eexists |].
  destruct (decide (split " "%char orderByClause !! 1 ≠ Some "asc"
                    ∧ split " "%char orderByClause !! 1 ≠ Some "desc"));
    by eexists.
Qed.

Lemma array_map_orderByOf_pure (orderByQueryParam : list string) :
  ∃ r, ∀ w, array_map S (orderByOf S) orderByQueryParam w = (w, r).
Proof.
  induction orderByQueryParam as [| clause rest [rs Hrest]]; [by eexists |].
  destruct (orderByOf_pure clause) as [[err | y] Hclause].
  - exists (inl err). intros w. simpl. unfold mbind, Eff_bind.
    by rewrite Hclause.
  - destruct rs as [err | ys].
    + exists (inl err). intros w. simpl. unfold mbind, Eff_bind.
      by rewrite Hclause, Hrest.
    + exists (inr (y :: ys)). intros w. simpl. unfold mbind, Eff_bind.
      by rewrite Hclause, Hrest.
Qed.

(** A clause that raises makes the whole array raise: the error of the
    first such clause. *)
Lemma array_map_orderByOf_raises (orderByQueryParam : list string) clause err w :
  clause ∈ orderByQueryParam →
  (orderByOf S clause w).2 = inl err →
  ∃ err', array_map S (orderByOf S) orderByQueryParam w = (w, inl err').
Proof.
  intros Hin Hclause.
  induction orderByQueryParam as [| c rest IH]; [by apply elem_of_nil in Hin |].
  destruct (orderByOf_pure c) as [[e | y] Hc].
  - exists e. simpl. unfold mbind, Eff_bind. by rewrite Hc.
  - apply elem_of_cons in Hin as [-> | Hin].
    + rewrite Hc in Hclause. discriminate.
    + destruct (IH Hin) as [e Hrest]. exists e.
      simpl. unfold mbind, Eff_bind. by rewrite Hc, Hrest.
Qed.

(** The list route either stops before the service or delegates to it. *)
Lemma getInvoices_shape (query : gmap string JsValue) w :
  (∃ err, getInvoices uuid InvoiceStatus service query w = (w, Next err))
  ∨ (∃ options,
       getInvoices uuid InvoiceStatus service query w
       = delegate (ListInvoicesCall options) (listInvoices service options)
           (λ vendors, ResJson StatusCodes.OK (InvoicesBody vendors)) w).
Proof.
  unfold getInvoices, celebrate.
  destruct (listQuerySchema uuid InvoiceStatus query) as [q |]; [| left; by eexists].
  destruct (query_orderBy q) as [orderByQueryParam |].
  - destruct (array_map_orderByOf_pure orderByQueryParam) as [[err | orderBy] Hmap].
    + left. exists err. unfold try_next, mbind, Eff_bind. by rewrite Hmap.
    + right. exists (listInvoicesOptionsOf q orderBy).
      unfold try_next, mbind, Eff_bind. rewrite Hmap.
      apply (try_next_invoke (ListInvoicesCall (listInvoicesOptionsOf q orderBy))).
  - right. exists (listInvoicesOptionsOf q []).
    apply (try_next_invoke (ListInvoicesCall (listInvoicesOptionsOf q []))).
Qed.

(** A validated query with a clause that raises never reaches the
    service. *)
Lemma getInvoices_bad_clause (query : gmap string JsValue) q clauses clause err w :
  listQuerySchema uuid InvoiceStatus query = Some q →
  query_orderBy q = Some clauses →
  clause ∈ clauses →
  (orderByOf S clause w).2 = inl err →
  ∃ err', getInvoices uuid InvoiceStatus service query w = (w, Next err').
Proof.
  intros Hq Hclauses Hin Hclause.
  destruct (array_map_orderByOf_raises clauses clause err w Hin Hclause)
    as [err' Hmap].
  exists err'. unfold getInvoices, celebrate. rewrite Hq, Hclauses.
  unfold try_next, mbind, Eff_bind. by rewrite Hmap.
Qed.

(** *** The router *)

Lemma router_shape (req : Request) w :
  Shape (router uuid InvoiceStatus extension service req) w.
Proof.
  destruct req as [files | query | | invoiceId | invoiceId | invoiceId body]; simpl.
  - destruct files as [fs |]; [| by eapply Untouched].
    destruct (decide (size fs = 1)) as [Hsize | Hsize].
    + rewrite <- length_map_to_list in Hsize.
      destruct (map_to_list fs) as [| [key v] [| ? ?]] eqn:Hkeys; try done.
      eapply Delegated. apply (postInvoice_one_field fs key v w Hkeys).
    + destruct (postInvoice_fields_not_one (Some fs) w) as [message Hrun].
      { intros ? [= <-]. done. }
      by eapply Untouched.
  - destruct (getInvoices_shape query w) as [[err Hrun] | [options Hrun]].
    + by eapply Untouched.
    + by eapply Delegated.
  - eapply Delegated. apply getCurrencies_run.
  - destruct (joi_uuid uuid invoiceId) eqn:Hid.
    + eapply Delegated. by apply getInvoice_run.
    + eapply Untouched. by apply getInvoice_refused.
  - destruct (joi_uuid uuid invoiceId) eqn:Hid.
    + eapply Delegated. by apply downloadInvoice_run.
    + eapply Untouched. by apply downloadInvoice_refused.
  - destruct (statusBodySchema InvoiceStatus body) as [body' |] eqn:Hbody.
    + eapply Delegated. apply patchInvoice_run. by eexists.
    + eapply Untouched. unfold patchInvoice, celebrate. by rewrite Hbody.
Qed.

(** *** The two refusals of an orderBy clause *)

Lemma orderByOf_unknown_field (orderByClause : string) w :
  split " "%char orderByClause !! 0 ≠ Some "dueDate" →
  orderByOf S orderByClause w = (w, inl (Error "")).
Proof. intros Hfield. unfold orderByOf. by rewrite decide_True. Qed.

Lemma orderByOf_invalid_direction (orderByClause : string) w :
  split " "%char orderByClause !! 0 = Some "dueDate" →
  split " "%char orderByClause !! 1 ≠ Some "asc" →
  split " "%char orderByClause !! 1 ≠ Some "desc" →
  orderByOf S orderByClause w
  = (w, inl (RangeError ("Invalid direction in orderBy clause " +:+ orderByClause))).
Proof.
  intros Hfield Hasc Hdesc. unfold orderByOf.
  rewrite decide_False by (intros Hne; by apply Hne).
  by rewrite decide_True.
Qed.

(** The clauses are read in order: the first one that raises decides the
    error, and the service is not reached. *)
Lemma getInvoices_first_raise (query : gmap string JsValue) q
    (accepted : list string) clause (rest : list string) err w :
  listQuerySchema uuid InvoiceStatus query = Some q →
  query_orderBy q = Some (accepted ++ clause :: rest)%list →
  Forall (λ c, ∃ y, ∀ w', orderByOf S c w' = (w', inr y)) accepted →
  orderByOf S clause w = (w, inl err) →
  getInvoices uuid InvoiceStatus service query w = (w, Next err).
Proof.
  intros Hq Hclauses Haccepted Hclause.
  unfold getInvoices, celebrate. rewrite Hq, Hclauses.
  assert (array_map S (orderByOf S) (accepted ++ clause :: rest)%list w = (w, inl err))
    as Hmap.
  { clear Hclauses. induction Haccepted as [| c cs [y Hc] _ IH]; simpl.
    - unfold mbind, Eff_bind. by rewrite Hclause.
    - unfold mbind, Eff_bind. rewrite Hc. unfold mbind, Eff_bind in IH.
      by rewrite IH. }
  unfold try_next, mbind, Eff_bind. by rewrite Hmap.
Qed.

End Runs.

(** ** The router against its contract *)

Section Contract.

Context {S Invoice : Type}.
Variable uuid : string → bool.
Variable InvoiceStatus : list string.
Variable extension : string → option string.
Variable service : InvoicesService S Invoice.

Implicit Types (w : World S) (invoiceId : string).

(** C1.  An upload with more than one file is not always refused: the router
    counts the field names of [req.files], not the files.  Two files sent
    under one field name make one key, whose value is an array; the count
    check passes, the array is read as if it were a file, and the service's
    [createInvoice] is called with an undefined content and an undefined MIME
    type. *)
Theorem post_two_files_one_field_reaches_service w (key : string)
    (f1 f2 : UploadedFile) :
  uploadedFiles (Some {[ key := ManyFiles f1 f2 [] ]}) = [f1; f2]
  ∧ postInvoice service (Some {[ key := ManyFiles f1 f2 [] ]}) w
    = delegate
        (CreateInvoiceCall {| document := {| content := None; mimeType := None |} |})
        (createInvoice service {| document := {| content := None; mimeType := None |} |})
        (λ invoice, ResJson 201 (InvoiceBody invoice)) w
  ∧ newCalls (postInvoice service (Some {[ key := ManyFiles f1 f2 [] ]})) w
    = [ {| call := CreateInvoiceCall
                     {| document := {| content := None; mimeType := None |} |};
           raised := raisedBy
             (createInvoice service
                {| document := {| content := None; mimeType := None |} |}
                (service_state w)).2 |} ].
Proof.
  assert (postInvoice service (Some {[ key := ManyFiles f1 f2 [] ]}) w
          = delegate
              (CreateInvoiceCall {| document := {| content := None; mimeType := None |} |})
              (createInvoice service {| document := {| content := None; mimeType := None |} |})
              (λ invoice, ResJson 201 (InvoiceBody invoice)) w) as Hrun.
  { apply (postInvoice_one_field service _ key (ManyFiles f1 f2 [])).
    apply map_to_list_singleton. }
  split; [| split].
  - unfold uploadedFiles. by rewrite map_to_list_singleton.
  - exact Hrun.
  - by apply newCalls_delegate in Hrun.
Qed.

(** C7.  An upload of exactly one file reaches [createInvoice] with that
    file's bytes and MIME type, in one call; the invoice the service returns
    is answered with status 201 (and what the service raises goes to
    [next]). *)
Theorem post_single_file_delegates w (files : option FileArray) (f : UploadedFile) :
  uploadedFiles files = [f] →
  postInvoice service files w
  = delegate
      (CreateInvoiceCall
         {| document := {| content := Some (data f); mimeType := Some (mimetype f) |} |})
      (createInvoice service
         {| document := {| content := Some (data f); mimeType := Some (mimetype f) |} |})
      (λ invoice, ResJson 201 (InvoiceBody invoice)) w
  ∧ newCalls (postInvoice service files) w
    = [ {| call := CreateInvoiceCall
                     {| document := {| content := Some (data f);
                                       mimeType := Some (mimetype f) |} |};
           raised := raisedBy
             (createInvoice service
                {| document := {| content := Some (data f);
                                  mimeType := Some (mimetype f) |} |}
                (service_state w)).2 |} ].
Proof.
  intros Hfiles. destruct files as [fs |]; [| discriminate].
  destruct (one_file_one_field fs f Hfiles) as [key Hkeys].
  pose proof (postInvoice_one_field service fs key (OneFile f) w Hkeys) as Hrun.
  split; [exact Hrun |]. by apply newCalls_delegate in Hrun.
Qed.

(** C4.  On the download route, for an identifier that passes the UUID
    schema: when the service finds no document file the route hands a
    [NotFoundError] to [next], whatever the extension table says; when it
    finds one whose MIME type has no extension, the route hands over a plain
    [Error], the invalid-state kind. *)
Theorem download_failures w invoiceId (s : S) (found : option InvoiceDocumentFile) :
  joi_uuid uuid invoiceId = true →
  downloadInvoiceDocumentFile service invoiceId (service_state w) = (s, inr found) →
  match found with
  | None =>
      (downloadInvoice uuid extension service invoiceId w).2
      = Next (NotFoundError ("Invoice " +:+ invoiceId +:+ " not found"))
      ∧ errorKind (NotFoundError ("Invoice " +:+ invoiceId +:+ " not found")) = NotFound
  | Some file =>
      extension (file_mimeType file) = None →
      (downloadInvoice uuid extension service invoiceId w).2
      = Next (Error ("Invalid mimeType " +:+ file_mimeType file
                       +:+ " for invoice " +:+ invoiceId))
      ∧ errorKind (Error ("Invalid mimeType " +:+ file_mimeType file
                            +:+ " for invoice " +:+ invoiceId)) = InvalidState
  end.
Proof.
  intros Hid Hcall. rewrite (downloadInvoice_run uuid extension service) by done.
  unfold delegate. rewrite Hcall. simpl.
  destruct found as [file |]; [| done].
  intros Hext. unfold downloadAnswer. by rewrite Hext.
Qed.

(** C5.  On the download route, for an identifier that passes the UUID
    schema, a document file the service found and a (non-empty) extension
    [ext] for its MIME type: the route sends the file's bytes, with the MIME
    type as Content-Type, the number of bytes as Content-Length, and
    [attachment; filename=] followed by the quoted [<id>.<ext>] as
    Content-Disposition. *)
Theorem download_sends_document w invoiceId (s : S) (file : InvoiceDocumentFile)
    (ext : string) :
  joi_uuid uuid invoiceId = true →
  downloadInvoiceDocumentFile service invoiceId (service_state w)
  = (s, inr (Some file)) →
  extension (file_mimeType file) = Some ext →
  ext ≠ "" →
  (downloadInvoice uuid extension service invoiceId w).2
  = ResSend
      {| Content_Type := file_mimeType file;
         Content_Length := length (file_content file);
         Content_Disposition :=
           "attachment; filename=" +:+ dquote +:+ invoiceId +:+ "." +:+ ext
             +:+ dquote |}
      (file_content file).
Proof.
  intros Hid Hcall Hext Hne. rewrite (downloadInvoice_run uuid extension service) by done.
  unfold delegate. rewrite Hcall. simpl. rewrite Hext.
  by destruct (decide (ext = "")).
Qed.

(** C6.  On the get-by-id route, for an identifier that passes the UUID
    schema and for which the service returns no invoice: the route hands
    [next] a [NotFoundError], of the not-found kind, after its single call. *)
Theorem get_absent_is_not_found w invoiceId (s : S) :
  joi_uuid uuid invoiceId = true →
  getInvoiceById service invoiceId (service_state w) = (s, inr None) →
  (getInvoice uuid service invoiceId w).2
  = Next (NotFoundError ("Invoice " +:+ invoiceId +:+ " not found"))
  ∧ ∀ err, (getInvoice uuid service invoiceId w).2 = Next err →
           errorKind err = NotFound.
Proof.
  intros Hid Hcall. rewrite (getInvoice_run uuid service) by done.
  unfold delegate. rewrite Hcall. simpl. split; [done |].
  by intros err [= <-].
Qed.

(** C8.  On the patch route, for a body with no key but [status], whose
    status is absent or one of the enumerated values: the route makes one
    call, [updateInvoice] with the identifier and the status as read from the
    body (no lookup comes first), and answers with the invoice the service
    returns.  The empty body is such a body and is delegated with an absent
    status. *)
Theorem patch_delegates w invoiceId (body : gmap string JsValue) :
  dom body ⊆ {[ "status" ]} →
  (body !! "status" = None
   ∨ ∃ s, body !! "status" = Some (JsString s) ∧ s ∈ InvoiceStatus) →
  (patchInvoice InvoiceStatus service invoiceId body w
   = delegate (UpdateInvoiceCall invoiceId {| status := body !! "status" |})
       (updateInvoice service invoiceId {| status := body !! "status" |})
       (λ invoice, ResJson 200 (InvoiceBody invoice)) w
   ∧ newCalls (patchInvoice InvoiceStatus service invoiceId body) w
     = [ {| call := UpdateInvoiceCall invoiceId {| status := body !! "status" |};
            raised := raisedBy
              (updateInvoice service invoiceId {| status := body !! "status" |}
                 (service_state w)).2 |} ])
  ∧ patchInvoice InvoiceStatus service invoiceId ∅ w
    = delegate (UpdateInvoiceCall invoiceId {| status := None |})
        (updateInvoice service invoiceId {| status := None |})
        (λ invoice, ResJson 200 (InvoiceBody invoice)) w.
Proof.
  intros Hkeys Hstatus. split.
  - pose proof (patchInvoice_run InvoiceStatus service invoiceId body w) as Hrun.
    simpl in Hrun. rewrite Hrun.
    + split; [done |]. by apply newCalls_delegate in Hrun;
        [| rewrite (statusBodySchema_accepts InvoiceStatus body)].
    + by rewrite (statusBodySchema_accepts InvoiceStatus body).
  - by rewrite (patchInvoice_run InvoiceStatus service invoiceId ∅ w).
Qed.

(** C9.  Whatever the request, an error raised by a call on the service is
    what the route hands to [next], as it was raised; and the call that
    raised it is the only call the route made. *)
Theorem collaborator_errors_propagate (req : Request) w (ev : Event) (err : JsError) :
  ev ∈ newCalls (router uuid InvoiceStatus extension service req) w →
  raised ev = Some err →
  (router uuid InvoiceStatus extension service req w).2 = Next err
  ∧ newCalls (router uuid InvoiceStatus extension service req) w = [ev].
Proof.
  intros Hin Hraised.
  destruct (router_shape uuid InvoiceStatus extension service req w)
    as [out Hrun | A c method respond Hrun].
  - rewrite (newCalls_unchanged _ _ _ Hrun) in Hin. by apply elem_of_nil in Hin.
  - rewrite (newCalls_delegate _ _ _ _ _ Hrun) in *.
    apply list_elem_of_singleton in Hin as ->. split; [| done].
    rewrite Hrun. unfold delegate. simpl in Hraised.
    destruct (method (service_state w)) as [s [e | a]]; simpl in *; congruence.
Qed.

(** C10.  The patch route puts no schema on the identifier: for any
    identifier and a valid body it calls [updateInvoice] with that very
    identifier.  The get-by-id and download routes, in contrast, hand a
    validation error to [next] without a call when the identifier fails the
    UUID schema. *)
Theorem patch_identifier_unchecked w invoiceId (body : gmap string JsValue) :
  dom body ⊆ {[ "status" ]} →
  (body !! "status" = None
   ∨ ∃ s, body !! "status" = Some (JsString s) ∧ s ∈ InvoiceStatus) →
  (call <$> newCalls (patchInvoice InvoiceStatus service invoiceId body) w)
  = [ UpdateInvoiceCall invoiceId {| status := body !! "status" |} ]
  ∧ (joi_uuid uuid invoiceId = false →
       getInvoice uuid service invoiceId w = (w, Next (CelebrateError PARAMS))
       ∧ downloadInvoice uuid extension service invoiceId w
         = (w, Next (CelebrateError PARAMS))).
Proof.
  intros Hkeys Hstatus. split.
  - pose proof (patchInvoice_run InvoiceStatus service invoiceId body w) as Hrun.
    simpl in Hrun. apply newCalls_delegate in Hrun as ->; [done |].
    by rewrite (statusBodySchema_accepts InvoiceStatus body).
  - intros Hid. split.
    + by apply getInvoice_refused.
    + by apply downloadInvoice_refused.
Qed.

(** C2.  A list request whose orderBy clause names a field other than
    [dueDate] is stopped before the service, but not with a validation
    error: for [price asc] the route hands [next] a bare [Error] with no
    message, the class the router uses for an invalid state, where the
    sibling check on the direction raises a [RangeError]. *)
Theorem list_unknown_field_raises_plain_error w :
  getInvoices uuid InvoiceStatus service
    {[ "orderBy" := JsArray [JsString "price asc"] ]} w
  = (w, Next (Error ""))
  ∧ errorKind (Error "") = InvalidState
  ∧ getInvoices uuid InvoiceStatus service
      {[ "orderBy" := JsArray [JsString "dueDate sideways"] ]} w
    = (w, Next (RangeError "Invalid direction in orderBy clause dueDate sideways")).
Proof. split; [| split]; vm_compute; reflexivity. Qed.

(** C3.  A list request that contains a clause with field [dueDate] and an
    invalid direction does not always fail with a validation error: when a
    clause with an unknown field comes first, as in [price asc] followed by
    [dueDate sideways], the route stops at that clause, with the bare
    [Error] of the field check. *)
Theorem list_invalid_direction_after_unknown_field w :
  getInvoices uuid InvoiceStatus service
    {[ "orderBy" := JsArray [JsString "price asc"; JsString "dueDate sideways"] ]} w
  = (w, Next (Error ""))
  ∧ errorKind (Error "") ≠ InvalidRequest.
Proof. split; [vm_compute; reflexivity | discriminate]. Qed.

End Contract.

(** ** The contract on the sample deployment *)

Lemma post_single_file_delegates_witness :
  uploadedFiles Sample.upload = [Sample.pdf]
  ∧ postInvoice Sample.service Sample.upload Sample.empty
    = ({| service_state := [Sample.stored Sample.pdf Sample.idA];
          calls := [ {| call := CreateInvoiceCall
                          {| document := {| content := Some (data Sample.pdf);
                                            mimeType := Some "application/pdf" |} |};
                        raised := None |} ] |},
       ResJson 201 (InvoiceBody (Sample.stored Sample.pdf Sample.idA))).
Proof.
  split; [vm_compute; reflexivity |].
  rewrite (proj1 (post_single_file_delegates Sample.service Sample.empty
                    Sample.upload Sample.pdf ltac:(vm_compute; reflexivity))).
  vm_compute. reflexivity.
Defined.

Lemma download_failures_witness :
  (downloadInvoice Sample.uuid Sample.extension Sample.service Sample.idC
     Sample.populated).2
  = Next (NotFoundError ("Invoice " +:+ Sample.idC +:+ " not found"))
  ∧ (downloadInvoice Sample.uuid Sample.extension Sample.service Sample.idB
       Sample.populated).2
    = Next (Error ("Invalid mimeType application/x-scan for invoice " +:+ Sample.idB)).
Proof.
  split.
  - exact (proj1 (download_failures Sample.uuid Sample.extension Sample.service
                    Sample.populated Sample.idC (service_state Sample.populated) None
                    ltac:(vm_compute; reflexivity) ltac:(vm_compute; reflexivity))).
  - exact (proj1 (download_failures Sample.uuid Sample.extension Sample.service
                    Sample.populated Sample.idB (service_state Sample.populated)
                    (Some {| file_content := data Sample.scan;
                             file_mimeType := mimetype Sample.scan |})
                    ltac:(vm_compute; reflexivity) ltac:(vm_compute; reflexivity)
                    ltac:(vm_compute; reflexivity))).
Defined.

Lemma download_sends_document_witness :
  Sample.extension "application/pdf" = Some "pdf"
  ∧ (downloadInvoice Sample.uuid Sample.extension Sample.service Sample.idA
       Sample.populated).2
    = ResSend
        {| Content_Type := "application/pdf";
           Content_Length := 4;
           Content_Disposition :=
             "attachment; filename=" +:+ dquote +:+ Sample.idA +:+ ".pdf" +:+ dquote |}
        [x25; x50; x44; x46].
Proof.
  split; [vm_compute; reflexivity |].
  exact (download_sends_document Sample.uuid Sample.extension Sample.service
           Sample.populated Sample.idA (service_state Sample.populated)
           {| file_content := data Sample.pdf; file_mimeType := mimetype Sample.pdf |}
           "pdf"
           ltac:(vm_compute; reflexivity) ltac:(vm_compute; reflexivity)
           ltac:(vm_compute; reflexivity) ltac:(discriminate)).
Defined.

Lemma get_absent_is_not_found_witness :
  joi_uuid Sample.uuid Sample.idC = true
  ∧ (getInvoice Sample.uuid Sample.service Sample.idC Sample.populated).2
    = Next (NotFoundError ("Invoice " +:+ Sample.idC +:+ " not found")).
Proof.
  split; [vm_compute; reflexivity |].
  exact (proj1 (get_absent_is_not_found Sample.uuid Sample.service Sample.populated
                  Sample.idC (service_state Sample.populated)
                  ltac:(vm_compute; reflexivity) ltac:(vm_compute; reflexivity))).
Defined.

Lemma patch_delegates_witness :
  patchInvoice Sample.InvoiceStatus Sample.service Sample.idA Sample.paid
    Sample.populated
  = delegate
      (UpdateInvoiceCall Sample.idA {| status := Some (JsString "paid") |})
      (updateInvoice Sample.service Sample.idA {| status := Some (JsString "paid") |})
      (λ invoice, ResJson 200 (InvoiceBody invoice)) Sample.populated
  ∧ (patchInvoice Sample.InvoiceStatus Sample.service Sample.idA ∅ Sample.populated).2
    = ResJson 200 (InvoiceBody (Sample.stored Sample.pdf Sample.idA)).
Proof.
  pose proof (patch_delegates Sample.InvoiceStatus Sample.service Sample.populated
                Sample.idA Sample.paid) as Hpatch.
  destruct Hpatch as [[Hrun _] Hempty].
  - apply (bool_decide_unpack _). vm_compute. exact I.
  - right. exists "paid". split; [vm_compute; reflexivity |].
    apply (bool_decide_unpack _). vm_compute. exact I.
  - split; [exact Hrun |]. rewrite Hempty. vm_compute. reflexivity.
Defined.

Lemma collaborator_errors_propagate_witness :
  (router Sample.uuid Sample.InvoiceStatus Sample.extension Sample.service
     (PATCH_invoiceId Sample.idC ∅) Sample.populated).2
  = Next (OtherError "NotFoundError" "no such invoice")
  ∧ newCalls (router Sample.uuid Sample.InvoiceStatus Sample.extension Sample.service
                (PATCH_invoiceId Sample.idC ∅)) Sample.populated
    = [ {| call := UpdateInvoiceCall Sample.idC {| status := None |};
           raised := Some (OtherError "NotFoundError" "no such invoice") |} ].
Proof.
  apply (collaborator_errors_propagate Sample.uuid Sample.InvoiceStatus
           Sample.extension Sample.service (PATCH_invoiceId Sample.idC ∅)
           Sample.populated).
  - replace (newCalls _ _)
      with [ {| call := UpdateInvoiceCall Sample.idC {| status := None |};
                raised := Some (OtherError "NotFoundError" "no such invoice") |} ]
      by (vm_compute; reflexivity).
    apply list_elem_of_here.
  - reflexivity.
Defined.

Lemma patch_identifier_unchecked_witness :
  Sample.uuid "42" = false
  ∧ (call <$> newCalls (patchInvoice Sample.InvoiceStatus Sample.service "42" ∅)
                Sample.populated)
    = [ UpdateInvoiceCall "42" {| status := None |} ]
  ∧ getInvoice Sample.uuid Sample.service "42" Sample.populated
    = (Sample.populated, Next (CelebrateError PARAMS)).
Proof.
  split; [vm_compute; reflexivity |].
  pose proof (patch_identifier_unchecked Sample.uuid Sample.InvoiceStatus
                Sample.extension Sample.service Sample.populated "42" ∅) as Hpatch.
  destruct Hpatch as [Hcalls Hget].
  - apply (bool_decide_unpack _). vm_compute. exact I.
  - left. vm_compute. reflexivity.
  - split; [exact Hcalls |]. apply Hget. vm_compute. reflexivity.
Defined.

(** ** Further properties of the routes *)

Section Coverage.

Context {S Invoice : Type}.
Variable uuid : string → bool.
Variable InvoiceStatus : list string.
Variable extension : string → option string.
Variable service : InvoicesService S Invoice.

Implicit Types (w : World S) (invoiceId : string).

(** *** POST / *)

(** An upload whose number of field names is not one is refused before the
    service, with the message of the check that caught it: no field at all
    (or no [req.files]) is reported as no upload, several fields as more
    than a single file. *)
Theorem post_refusal_messages w (files : option FileArray) :
  fieldCount files ≠ 1 →
  postInvoice service files w
  = (w, Next (RangeError (if decide (fieldCount files = 0)
                          then "No files were uploaded"
                          else "Must upload a single file"))).
Proof.
  intros Hcount. destruct files as [fs |]; [| reflexivity].
  simpl in *. unfold postInvoice, try_next.
  rewrite length_fmap, length_map_to_list.
  destruct (decide (size fs = 0)); [reflexivity |].
  by destruct (decide (size fs ≠ 1)).
Qed.

(** The upload route reaches the service exactly when [req.files] has one
    field name; and then it makes one call, to [createInvoice]. *)
Theorem post_reaches_service_iff_one_field w (files : option FileArray) :
  (newCalls (postInvoice service files) w ≠ [] ↔ fieldCount files = 1)
  ∧ (fieldCount files = 1 →
     ∃ options,
       call <$> newCalls (postInvoice service files) w = [CreateInvoiceCall options]).
Proof.
  assert (fieldCount files = 1 →
          ∃ options,
            call <$> newCalls (postInvoice service files) w
            = [CreateInvoiceCall options]) as Hone.
  { intros Hcount. destruct files as [fs |]; [| discriminate]. simpl in Hcount.
    rewrite <- length_map_to_list in Hcount.
    destruct (map_to_list fs) as [| [key v] [| ? ?]] eqn:Hkeys; try done.
    pose proof (postInvoice_one_field service fs key v w Hkeys) as Hrun.
    simpl in Hrun. apply newCalls_delegate in Hrun as ->. by eexists. }
  split; [| exact Hone]. split.
  - intros Hcalls. destruct (decide (fieldCount files = 1)) as [| Hcount]; [done |].
    exfalso. apply Hcalls. eapply newCalls_unchanged.
    by apply post_refusal_messages.
  - intros Hcount. destruct (Hone Hcount) as [options Hcalls].
    intros Hnil. rewrite Hnil in Hcalls. discriminate.
Qed.

(** *** GET / *)

Lemma orderByOf_accepts (orderByClause : string) w :
  split " "%char orderByClause !! 0 = Some "dueDate" →
  (split " "%char orderByClause !! 1 = Some "asc"
   ∨ split " "%char orderByClause !! 1 = Some "desc") →
  orderByOf S orderByClause w
  = (w, inr {| field := dueDate;
               direction := if decide (split " "%char orderByClause !! 1 = Some "asc")
                            then asc else desc |}).
Proof.
  intros Hfield Hdirection. unfold orderByOf.
  rewrite decide_False by (intros Hne; by apply Hne).
  rewrite decide_False; [reflexivity |].
  intros [Hasc Hdesc]. by destruct Hdirection.
Qed.

Lemma array_map_orderByOf_accepts (clauses : list string) w :
  Forall (λ c, split " "%char c !! 0 = Some "dueDate"
               ∧ (split " "%char c !! 1 = Some "asc"
                  ∨ split " "%char c !! 1 = Some "desc")) clauses →
  array_map S (orderByOf S) clauses w
  = (w, inr ((λ c, {| field := dueDate;
                      direction := if decide (split " "%char c !! 1 = Some "asc")
                                   then asc else desc |}) <$> clauses)).
Proof.
  induction 1 as [| c cs [Hfield Hdirection] _ IH]; [reflexivity |].
  simpl. unfold mbind, Eff_bind.
  rewrite (orderByOf_accepts c w Hfield Hdirection).
  unfold mbind, Eff_bind in IH. by rewrite IH.
Qed.

(** A validated list request whose orderBy clauses all read [dueDate]
    followed by [asc] or [desc] makes one call, [listInvoices], with the
    three filters as validated and one [OrderBy] per clause, in the order of
    the clauses (none when the key is absent); the route answers 200 with the
    invoices returned. *)
Theorem list_orders_as_given (query : gmap string JsValue) (q : ListQuery) w :
  listQuerySchema uuid InvoiceStatus query = Some q →
  Forall (λ c, split " "%char c !! 0 = Some "dueDate"
               ∧ (split " "%char c !! 1 = Some "asc"
                  ∨ split " "%char c !! 1 = Some "desc"))
         (default [] (query_orderBy q)) →
  getInvoices uuid InvoiceStatus service query w
  = delegate
      (ListInvoicesCall
         {| ids := query_ids q; statuses := query_statuses q;
            vendorIds := query_vendorIds q;
            orderBy :=
              (λ c, {| field := dueDate;
                       direction := if decide (split " "%char c !! 1 = Some "asc")
                                    then asc else desc |})
                <$> default [] (query_orderBy q) |})
      (listInvoices service
         {| ids := query_ids q; statuses := query_statuses q;
            vendorIds := query_vendorIds q;
            orderBy :=
              (λ c, {| field := dueDate;
                       direction := if decide (split " "%char c !! 1 = Some "asc")
                                    then asc else desc |})
                <$> default [] (query_orderBy q) |})
      (λ vendors, ResJson 200 (InvoicesBody vendors)) w.
Proof.
  intros Hq Hclauses. unfold getInvoices, celebrate. rewrite Hq.
  destruct (query_orderBy q) as [clauses |]; simpl in *.
  - unfold try_next at 1. unfold mbind at 1. unfold Eff_bind at 1.
    rewrite (array_map_orderByOf_accepts clauses w Hclauses).
    apply (try_next_invoke (ListInvoicesCall _)).
  - apply (try_next_invoke (ListInvoicesCall _)).
Qed.

(** Only the first two tokens of an orderBy clause are read: whatever
    follows a second space is ignored.  A second space right after the field
    makes the direction the empty string, which is refused. *)
Theorem orderBy_reads_two_tokens (rest : string) w :
  orderByOf S ("dueDate asc " +:+ rest) w
  = (w, inr {| field := dueDate; direction := asc |})
  ∧ orderByOf S ("dueDate desc " +:+ rest) w
    = (w, inr {| field := dueDate; direction := desc |})
  ∧ orderByOf S ("dueDate  " +:+ rest) w
    = (w, inl (RangeError ("Invalid direction in orderBy clause dueDate  " +:+ rest))).
Proof.
  split; [| split].
  - by rewrite orderByOf_accepts; [| reflexivity | left].
  - by rewrite orderByOf_accepts; [| reflexivity | right].
  - by rewrite orderByOf_invalid_direction.
Qed.

Lemma joi_array_Forall (item : string → bool) (v : JsValue) (l : list string) :
  joi_array item v = Some l →
  v = JsArray (JsString <$> l) ∧ Forall (λ s, item s = true) l.
Proof.
  destruct v as [| | | | items |]; try discriminate. simpl. intros Hitems.
  apply mapM_Some_1 in Hitems.
  induction Hitems as [| x s xs ss Hx _ [IHeq IHall]]; [done |].
  destruct x as [| | | s' | |]; try discriminate.
  destruct (item s') eqn:Hitem; [| discriminate].
  injection Hx as ->. injection IHeq as ->. split; [done |]. by constructor.
Qed.

Lemma joi_optional_array_Forall (item : string → bool) (v : option JsValue)
    (r : option (list string)) :
  joi_optional (joi_array item) v = Some r →
  ∀ l, r = Some l → Forall (λ s, item s = true) l.
Proof.
  destruct v as [x |]; simpl.
  - destruct (joi_array item x) as [l' |] eqn:Harray; [| discriminate].
    intros [= <-] l [= <-]. by apply joi_array_Forall in Harray as [_ Hall].
  - by intros [= <-] l.
Qed.

(** What the schema of the list route guarantees about a validated query. *)
Lemma listQuerySchema_valid (query : gmap string JsValue) (q : ListQuery) :
  listQuerySchema uuid InvoiceStatus query = Some q →
  (∀ l, query_ids q = Some l → Forall (λ s, joi_uuid uuid s = true) l)
  ∧ (∀ l, query_statuses q = Some l → Forall (λ s, s ∈ InvoiceStatus) l)
  ∧ (∀ l, query_vendorIds q = Some l → Forall (λ s, joi_uuid uuid s = true) l)
  ∧ (∀ l, query_orderBy q = Some l → Forall (λ s, s ≠ "") l).
Proof.
  unfold listQuerySchema. case_bool_decide; [| discriminate].
  destruct (joi_optional (joi_array (joi_uuid uuid)) (query !! "ids"))
    as [ids' |] eqn:Hids; [| discriminate].
  destruct (joi_optional (joi_array (joi_status InvoiceStatus)) (query !! "statuses"))
    as [statuses' |] eqn:Hstatuses; [| discriminate].
  destruct (joi_optional (joi_array (joi_uuid uuid)) (query !! "vendorIds"))
    as [vendorIds' |] eqn:HvendorIds; [| discriminate].
  destruct (joi_optional (joi_array joi_string) (query !! "orderBy"))
    as [orderBy' |] eqn:HorderBy; [| discriminate].
  simpl. intros [= <-]. simpl. repeat split.
  - by apply (joi_optional_array_Forall _ _ _ Hids).
  - intros l Hl. pose proof (joi_optional_array_Forall _ _ _ Hstatuses l Hl) as Hall.
    eapply Forall_impl; [exact Hall |]. intros s Hs. simpl in Hs.
    unfold joi_status in Hs. by apply bool_decide_eq_true in Hs.
  - by apply (joi_optional_array_Forall _ _ _ HvendorIds).
  - intros l Hl. pose proof (joi_optional_array_Forall _ _ _ HorderBy l Hl) as Hall.
    eapply Forall_impl; [exact Hall |]. intros s Hs. simpl in Hs.
    unfold joi_string in Hs. by apply bool_decide_eq_true in Hs.
Qed.

(** Reading a clause raises nothing but the two errors of its checks. *)
Lemma orderByOf_result (orderByClause : string) :
  ∃ r, (∀ w, orderByOf S orderByClause w = (w, r))
       ∧ ∀ err, r = inl err → routerError err.
Proof.
  unfold orderByOf.
  destruct (decide (split " "%char orderByClause !! 0 ≠ Some "dueDate")).
  { eexists. split; [done |]. by intros err [= <-]. }
  destruct (decide (split " "%char orderByClause !! 1 ≠ Some "asc"
                    ∧ split " "%char orderByClause !! 1 ≠ Some "desc")).
  - eexists. split; [done |]. by intros err [= <-].
  - eexists. split; [done |]. intros err. discriminate.
Qed.

Lemma array_map_orderByOf_result (clauses : list string) :
  ∃ r, (∀ w, array_map S (orderByOf S) clauses w = (w, r))
       ∧ ∀ err, r = inl err → routerError err.
Proof.
  induction clauses as [| c cs [rs [Hcs Hrs]]].
  { exists (inr []). split; [done |]. intros err. discriminate. }
  destruct (orderByOf_result c) as [[e | y] [Hc He]].
  - exists (inl e). split; [| intros err [= <-]; by apply He].
    intros w. simpl. unfold mbind, Eff_bind. by rewrite Hc.
  - destruct rs as [e | ys].
    + exists (inl e). split; [| exact Hrs].
      intros w. simpl. unfold mbind, Eff_bind. by rewrite Hc, Hcs.
    + exists (inr (y :: ys)). split; [| intros err; discriminate].
      intros w. simpl. unfold mbind, Eff_bind. by rewrite Hc, Hcs.
Qed.

(** The list route in full: refused by the schema, stopped at a clause, or
    delegated with the validated filters. *)
Lemma getInvoices_cases (query : gmap string JsValue) w :
  (∃ err, getInvoices uuid InvoiceStatus service query w = (w, Next err)
          ∧ routerError err)
  ∨ (∃ q parsed,
       listQuerySchema uuid InvoiceStatus query = Some q
       ∧ getInvoices uuid InvoiceStatus service query w
         = delegate (ListInvoicesCall (listInvoicesOptionsOf q parsed))
             (listInvoices service (listInvoicesOptionsOf q parsed))
             (λ vendors, ResJson StatusCodes.OK (InvoicesBody vendors)) w).
Proof.
  unfold getInvoices, celebrate.
  destruct (listQuerySchema uuid InvoiceStatus query) as [q |] eqn:Hq;
    [| left; by eexists].
  destruct (query_orderBy q) as [clauses |].
  - destruct (array_map_orderByOf_result clauses) as [[err | parsed] [Hmap Herr]].
    + left. exists err. split; [| by apply Herr].
      unfold try_next, mbind, Eff_bind. by rewrite Hmap.
    + right. exists q, parsed. split; [done |].
      unfold try_next at 1. unfold mbind at 1. unfold Eff_bind at 1.
      rewrite Hmap. apply (try_next_invoke (ListInvoicesCall _)).
  - right. exists q, []. split; [done |].
    apply (try_next_invoke (ListInvoicesCall _)).
Qed.

(** Whatever the query, the filters that reach [listInvoices] have passed
    the schema: every id and vendor id is a UUID, every status is one of the
    enumerated values. *)
Theorem list_passes_validated_filters (query : gmap string JsValue) w :
  Forall (λ ev, ∃ options,
            call ev = ListInvoicesCall options
            ∧ (∀ l, ids options = Some l → Forall (λ s, joi_uuid uuid s = true) l)
            ∧ (∀ l, statuses options = Some l → Forall (λ s, s ∈ InvoiceStatus) l)
            ∧ (∀ l, vendorIds options = Some l
                    → Forall (λ s, joi_uuid uuid s = true) l))
         (newCalls (getInvoices uuid InvoiceStatus service query) w).
Proof.
  destruct (getInvoices_cases query w) as [(err & Hrun & _) | (q & parsed & Hq & Hrun)].
  - rewrite (newCalls_unchanged _ _ _ Hrun). constructor.
  - rewrite (newCalls_delegate _ _ _ _ _ Hrun). apply Forall_singleton.
    exists (listInvoicesOptionsOf q parsed).
    destruct (listQuerySchema_valid query q Hq) as (Hids & Hstatuses & Hvendors & _).
    by repeat split.
Qed.

Lemma joi_array_refuses (item : string → bool) (items : list JsValue) (s : string) :
  JsString s ∈ items → item s = false → joi_array item (JsArray items) = None.
Proof.
  intros Hin Hitem. simpl.
  destruct (mapM _ items) as [l |] eqn:Hitems; [| reflexivity].
  exfalso. apply mapM_Some_1 in Hitems.
  induction Hitems as [| x y xs ys Hx _ IH]; [by apply elem_of_nil in Hin |].
  apply elem_of_cons in Hin as [<- | Hin]; [| by apply IH].
  simpl in Hx. by rewrite Hitem in Hx.
Qed.

Lemma joi_optional_refuses (item : string → bool) (items : list JsValue) (s : string) :
  JsString s ∈ items → item s = false →
  joi_optional (joi_array item) (Some (JsArray items)) = None.
Proof.
  intros Hin Hitem. unfold joi_optional.
  by rewrite (joi_array_refuses item items s).
Qed.

(** A list request one of whose filters holds a value the schema does not
    allow (an id or a vendor id that is not a UUID, a status outside the
    enumeration) is refused by the validation middleware; the service is not
    called. *)
Theorem list_refuses_invalid_filter (query : gmap string JsValue)
    (items : list JsValue) (s : string) w :
  JsString s ∈ items →
  (query !! "ids" = Some (JsArray items) ∧ joi_uuid uuid s = false)
  ∨ (query !! "vendorIds" = Some (JsArray items) ∧ joi_uuid uuid s = false)
  ∨ (query !! "statuses" = Some (JsArray items) ∧ s ∉ InvoiceStatus) →
  getInvoices uuid InvoiceStatus service query w = (w, Next (CelebrateError QUERY)).
Proof.
  intros Hin Hfilter.
  assert (listQuerySchema uuid InvoiceStatus query = None) as Hrefused.
  { unfold listQuerySchema. case_bool_decide; [| reflexivity].
    destruct Hfilter as [[Hkey Hs] | [[Hkey Hs] | [Hkey Hs]]]; rewrite Hkey.
    - by rewrite (joi_optional_refuses _ items s).
    - rewrite (joi_optional_refuses _ items s) by done.
      destruct (joi_optional _ (query !! "ids")); [| reflexivity]. simpl.
      by destruct (joi_optional _ (query !! "statuses")).
    - rewrite (joi_optional_refuses _ items s);
        [| done | unfold joi_status; by apply bool_decide_eq_false].
      by destruct (joi_optional _ (query !! "ids")). }
  unfold getInvoices, celebrate. by rewrite Hrefused.
Qed.

(** *** GET /currencies *)

(** The currencies route reads nothing from the request: it makes one call,
    [listCurrencies], and answers 200 with the list returned, or hands the
    error raised to [next]. *)
Theorem currencies_delegates w :
  getCurrencies service w
  = ({| service_state := (listCurrencies service (service_state w)).1;
        calls := calls w
                 ++ [ {| call := ListCurrenciesCall;
                         raised := raisedBy (listCurrencies service (service_state w)).2 |} ] |},
     match (listCurrencies service (service_state w)).2 with
     | inl err => Next err
     | inr currencies => ResJson 200 (CurrenciesBody currencies)
     end).
Proof.
  rewrite (getCurrencies_run service). unfold delegate.
  by destruct (listCurrencies service (service_state w)) as [s r].
Qed.

(** *** GET /:invoiceId *)

(** For an identifier that passes the UUID schema and an invoice the
    service finds, the route answers 200 with that invoice, after the one
    call [getInvoiceById] with the identifier of the path. *)
Theorem get_found_answers w invoiceId (s : S) (invoice : Invoice) :
  joi_uuid uuid invoiceId = true →
  getInvoiceById service invoiceId (service_state w) = (s, inr (Some invoice)) →
  getInvoice uuid service invoiceId w
  = ({| service_state := s;
        calls := calls w ++ [ {| call := GetInvoiceByIdCall invoiceId;
                                 raised := None |} ] |},
     ResJson 200 (InvoiceBody invoice)).
Proof.
  intros Hid Hcall. rewrite (getInvoice_run uuid service) by done.
  unfold delegate. by rewrite Hcall.
Qed.

(** *** GET /:invoiceId/download *)

(** The download route sends bytes only for an identifier that passes the
    UUID schema and a document file the service returned whose MIME type has
    a non-empty extension; the bytes are the file's, and the Content-Length
    header is their number. *)
Theorem download_sends_only_documents w invoiceId (headers : Headers) (body : Buffer) :
  (downloadInvoice uuid extension service invoiceId w).2 = ResSend headers body →
  joi_uuid uuid invoiceId = true
  ∧ Content_Length headers = length body
  ∧ ∃ file ext,
      (downloadInvoiceDocumentFile service invoiceId (service_state w)).2
      = inr (Some file)
      ∧ extension (file_mimeType file) = Some ext
      ∧ ext ≠ ""
      ∧ body = file_content file
      ∧ headers = {| Content_Type := file_mimeType file;
                     Content_Length := length (file_content file);
                     Content_Disposition := attachment invoiceId ext |}.
Proof.
  intros Hsend. destruct (joi_uuid uuid invoiceId) eqn:Hid.
  2: { by rewrite (downloadInvoice_refused uuid extension service) in Hsend. }
  rewrite (downloadInvoice_run uuid extension service) in Hsend by done.
  unfold delegate in Hsend.
  destruct (downloadInvoiceDocumentFile service invoiceId (service_state w))
    as [s [err | [file |]]]; simpl in *; try discriminate.
  destruct (extension (file_mimeType file)) as [ext |] eqn:Hext; [| discriminate].
  destruct (decide (ext = "")) as [| Hne]; [discriminate |].
  injection Hsend as <- <-. split; [done |]. split; [done |].
  exists file, ext. by rewrite Hext.
Qed.

(** *** PATCH /:invoiceId *)

(** A body whose status is anything but one of the enumerated strings is
    refused by the validation middleware; the service is not called. *)
Theorem patch_refuses_unlisted_status w invoiceId (body : gmap string JsValue)
    (v : JsValue) :
  body !! "status" = Some v →
  (∀ s, v = JsString s → s ∉ InvoiceStatus) →
  patchInvoice InvoiceStatus service invoiceId body w
  = (w, Next (CelebrateError BODY)).
Proof.
  intros Hstatus Hunlisted. unfold patchInvoice, celebrate, statusBodySchema.
  case_bool_decide; [| reflexivity]. rewrite Hstatus.
  destruct v as [| | | s | |]; try reflexivity.
  unfold joi_status. rewrite bool_decide_eq_false_2; [reflexivity |].
  by apply Hunlisted.
Qed.

Lemma statusBodySchema_status (body body' : gmap string JsValue) :
  statusBodySchema InvoiceStatus body = Some body' →
  body !! "status" = None
  ∨ ∃ s, body !! "status" = Some (JsString s) ∧ s ∈ InvoiceStatus.
Proof.
  unfold statusBodySchema. case_bool_decide; [| discriminate].
  destruct (body !! "status") as [[| | | s | |] |]; try discriminate; [| by left].
  unfold joi_status. case_bool_decide; [| discriminate].
  intros _. right. by exists s.
Qed.

(** Whatever the body, what reaches [updateInvoice] is the identifier of
    the path and the status of the body, which is absent or one of the
    enumerated strings. *)
Theorem patch_passes_validated_status w invoiceId (body : gmap string JsValue) :
  Forall (λ ev, call ev = UpdateInvoiceCall invoiceId {| status := body !! "status" |}
                ∧ (body !! "status" = None
                   ∨ ∃ s, body !! "status" = Some (JsString s) ∧ s ∈ InvoiceStatus))
         (newCalls (patchInvoice InvoiceStatus service invoiceId body) w).
Proof.
  destruct (statusBodySchema InvoiceStatus body) as [body' |] eqn:Hbody.
  - pose proof (patchInvoice_run InvoiceStatus service invoiceId body w) as Hrun.
    simpl in Hrun. rewrite (newCalls_delegate _ _ _ _ _ (Hrun (mk_is_Some _ _ Hbody))).
    apply Forall_singleton. split; [done |]. by eapply statusBodySchema_status.
  - rewrite (newCalls_unchanged _ w (Next (CelebrateError BODY))); [constructor |].
    unfold patchInvoice, celebrate. by rewrite Hbody.
Qed.

(** *** The router *)

(** Every route either stops with one of the router's own errors, leaving
    the world as it was, or is one delegation to the method of the route,
    whose JSON answers carry the status code of the route. *)
Lemma router_cases (req : Request) w :
  (∃ err, router uuid InvoiceStatus extension service req w = (w, Next err)
          ∧ routerError err)
  ∨ (∃ (A : Type) (c : Call) (method : S → S * (JsError + A))
       (respond : A → Outcome Invoice),
       router uuid InvoiceStatus extension service req w
       = delegate c method respond w
       ∧ answers req c
       ∧ ∀ a statusCode body,
           respond a = ResJson statusCode body →
           statusCode = match req with POST_root _ => 201 | _ => 200 end).
Proof.
  destruct req as [files | query | | invoiceId | invoiceId | invoiceId body]; simpl.
  - destruct (decide (fieldCount files = 1)) as [Hcount | Hcount].
    + right. destruct files as [fs |]; [| discriminate]. simpl in Hcount.
      rewrite <- length_map_to_list in Hcount.
      destruct (map_to_list fs) as [| [key v] [| ? ?]] eqn:Hkeys; try done.
      eexists _, _, _, _. split; [apply (postInvoice_one_field service fs key v w Hkeys) |].
      split; [done |]. by intros a statusCode body [= <- _].
    + left. eexists. split; [by apply post_refusal_messages | done].
  - destruct (getInvoices_cases query w)
      as [(err & Hrun & Herr) | (q & parsed & _ & Hrun)].
    + left. by exists err.
    + right. eexists _, _, _, _. split; [exact Hrun |].
      split; [done |]. by intros a statusCode body [= <- _].
  - right. eexists _, _, _, _. split; [apply getCurrencies_run |].
    split; [done |]. by intros a statusCode body [= <- _].
  - destruct (joi_uuid uuid invoiceId) eqn:Hid.
    + right. eexists _, _, _, _. split; [by apply getInvoice_run |].
      split; [done |]. intros [invoice |] statusCode body; [| discriminate].
      by intros [= <- _].
    + left. eexists. split; [by apply getInvoice_refused | done].
  - destruct (joi_uuid uuid invoiceId) eqn:Hid.
    + right. eexists _, _, _, _. split; [by apply downloadInvoice_run |].
      split; [done |]. intros [file |] statusCode body; [| discriminate].
      unfold downloadAnswer.
      destruct (extension (file_mimeType file)) as [ext |]; [| discriminate].
      by destruct (decide (ext = "")).
    + left. eexists. split; [by apply downloadInvoice_refused | done].
  - destruct (statusBodySchema InvoiceStatus body) as [body' |] eqn:Hbody.
    + right. eexists _, _, _, _.
      split; [apply patchInvoice_run; by eexists |].
      split; [done |]. by intros a statusCode body0 [= <- _].
    + left. exists (CelebrateError BODY). split; [| done].
      unfold patchInvoice, celebrate. by rewrite Hbody.
Qed.

(** A request makes at most one call on the service, and only to the method
    of its route: the upload route to [createInvoice], the list route to
    [listInvoices], and so on, with the identifier of the path where there is
    one.  In particular no route but PATCH calls [updateInvoice], and no
    route but POST calls [createInvoice]. *)
Theorem router_calls_own_method_once (req : Request) w :
  (length (newCalls (router uuid InvoiceStatus extension service req) w) ≤ 1)%nat
  ∧ Forall (λ ev, answers req (call ev))
           (newCalls (router uuid InvoiceStatus extension service req) w).
Proof.
  destruct (router_cases req w)
    as [(err & Hrun & _) | (A & c & method & respond & Hrun & Hanswers & _)].
  - rewrite (newCalls_unchanged _ _ _ Hrun). split; [simpl; lia | constructor].
  - rewrite (newCalls_delegate _ _ _ _ _ Hrun). split; [done |].
    by apply Forall_singleton.
Qed.

(** A JSON answer carries 201 on the upload route and 200 on every other
    route; the router sets no other status code. *)
Theorem router_status_codes (req : Request) w (statusCode : nat) (body : Body Invoice) :
  (router uuid InvoiceStatus extension service req w).2 = ResJson statusCode body →
  statusCode = match req with POST_root _ => 201 | _ => 200 end.
Proof.
  intros Hout.
  destruct (router_cases req w)
    as [(err & Hrun & _) | (A & c & method & respond & Hrun & _ & Hcode)].
  - by rewrite Hrun in Hout.
  - rewrite Hrun in Hout. unfold delegate in Hout.
    destruct (method (service_state w)) as [s [err | a]]; simpl in Hout;
      [discriminate |].
    by eapply Hcode.
Qed.

(** A request that makes no call on the service gets no response from the
    router: it ends in [next], with a [RangeError], the validation
    middleware's error, or the bare [Error] of the orderBy field check, and
    the service's state is as it was. *)
Theorem router_stops_with_own_error (req : Request) w :
  newCalls (router uuid InvoiceStatus extension service req) w = [] →
  ∃ err, router uuid InvoiceStatus extension service req w = (w, Next err)
         ∧ routerError err.
Proof.
  intros Hcalls.
  destruct (router_cases req w)
    as [(err & Hrun & Herr) | (A & c & method & respond & Hrun & _)].
  - by exists err.
  - by rewrite (newCalls_delegate _ _ _ _ _ Hrun) in Hcalls.
Qed.

End Coverage.

(** ** The further properties on the sample deployment *)

Lemma post_refusal_messages_witness :
  fieldCount Requests.twoFields = 2
  ∧ postInvoice Sample.service Requests.twoFields Sample.empty
    = (Sample.empty, Next (RangeError "Must upload a single file")).
Proof.
  split; [vm_compute; reflexivity |].
  rewrite (post_refusal_messages Sample.service Sample.empty Requests.twoFields)
    by (vm_compute; discriminate).
  vm_compute. reflexivity.
Defined.

Lemma list_orders_as_given_witness :
  getInvoices Sample.uuid Sample.InvoiceStatus Sample.service Requests.filtered
    Sample.populated
  = ({| service_state := service_state Sample.populated;
        calls := [ {| call := ListInvoicesCall
                        {| ids := None; statuses := Some ["paid"]; vendorIds := None;
                           orderBy := [ {| field := dueDate; direction := desc |};
                                        {| field := dueDate; direction := asc |} ] |};
                      raised := None |} ] |},
     ResJson 200 (InvoicesBody (service_state Sample.populated))).
Proof.
  rewrite (list_orders_as_given Sample.uuid Sample.InvoiceStatus Sample.service
             Requests.filtered Requests.filteredQuery Sample.populated).
  - vm_compute. reflexivity.
  - vm_compute. reflexivity.
  - constructor; [split; [reflexivity | right; reflexivity] |].
    constructor; [split; [reflexivity | left; reflexivity] |].
    constructor.
Defined.

Lemma get_found_answers_witness :
  getInvoice Sample.uuid Sample.service Sample.idA Sample.populated
  = ({| service_state := service_state Sample.populated;
        calls := [ {| call := GetInvoiceByIdCall Sample.idA; raised := None |} ] |},
     ResJson 200 (InvoiceBody (Sample.stored Sample.pdf Sample.idA))).
Proof.
  apply (get_found_answers Sample.uuid Sample.service Sample.populated Sample.idA);
    vm_compute; reflexivity.
Defined.

Lemma download_sends_only_documents_witness :
  joi_uuid Sample.uuid Sample.idA = true
  ∧ Content_Length
      {| Content_Type := "application/pdf"; Content_Length := 4;
         Content_Disposition := attachment Sample.idA "pdf" |}
    = length (data Sample.pdf).
Proof.
  pose proof (download_sends_only_documents Sample.uuid Sample.extension
                Sample.service Sample.populated Sample.idA
                {| Content_Type := "application/pdf"; Content_Length := 4;
                   Content_Disposition := attachment Sample.idA "pdf" |}
                (data Sample.pdf)) as Hsend.
  destruct Hsend as (Hid & Hlength & _); [vm_compute; reflexivity |].
  split; [exact Hid | exact Hlength].
Defined.

Lemma patch_refuses_unlisted_status_witness :
  patchInvoice Sample.InvoiceStatus Sample.service Sample.idA Requests.voided
    Sample.populated
  = (Sample.populated, Next (CelebrateError BODY)).
Proof.
  apply (patch_refuses_unlisted_status Sample.InvoiceStatus Sample.service
           Sample.populated Sample.idA Requests.voided (JsString "void")).
  - vm_compute. reflexivity.
  - intros s [= <-]. apply (bool_decide_unpack _). vm_compute. exact I.
Defined.

Lemma router_status_codes_witness :
  (router Sample.uuid Sample.InvoiceStatus Sample.extension Sample.service
     (POST_root Sample.upload) Sample.empty).2
  = ResJson 201 (InvoiceBody (Sample.stored Sample.pdf Sample.idA))
  ∧ 201 = match POST_root Sample.upload with POST_root _ => 201 | _ => 200 end.
Proof.
  split; [vm_compute; reflexivity |].
  apply (router_status_codes Sample.uuid Sample.InvoiceStatus Sample.extension
           Sample.service (POST_root Sample.upload) Sample.empty 201
           (InvoiceBody (Sample.stored Sample.pdf Sample.idA))).
  vm_compute. reflexivity.
Defined.

Lemma router_stops_with_own_error_witness :
  ∃ err,
    router Sample.uuid Sample.InvoiceStatus Sample.extension Sample.service
      (GET_invoiceId "42") Sample.populated
    = (Sample.populated, Next err)
    ∧ routerError err.
Proof.
  apply (router_stops_with_own_error Sample.uuid Sample.InvoiceStatus
           Sample.extension Sample.service (GET_invoiceId "42") Sample.populated).
  vm_compute. reflexivity.
Defined.

Lemma list_refuses_invalid_filter_witness :
  getInvoices Sample.uuid Sample.InvoiceStatus Sample.service Requests.byBadId
    Sample.populated
  = (Sample.populated, Next (CelebrateError QUERY)).
Proof.
  apply (list_refuses_invalid_filter Sample.uuid Sample.InvoiceStatus Sample.service
           Requests.byBadId [JsString "42"] "42" Sample.populated).
  - apply list_elem_of_here.
  - left. split; vm_compute; reflexivity.
Defined.
